(** * jedi-language-server: the request handlers of [server.py]

    A shallow embedding of [src/jedi_language_server/server.py].  The seven
    handlers registered on [SERVER] are transcribed one by one.  The objects
    they receive and build ([pygls.types]), the workspace they mutate
    ([pygls.workspace]) and the analysis objects they consume ([jedi]) are
    modelled as records; the helpers imported from [.server_utils] and
    [.type_map] are an interface the handlers are parametrised by. *)

From stdpp Require Import gmap strings list fin_maps.
From Stdlib Require Import ZArith Lia.

Local Open Scope string_scope.
Local Open Scope list_scope.

(** ** Python results: a value or a raised exception *)

(** A raised exception: its class name and its argument. *)
Record exn := PyExn { exn_class : string; exn_arg : string }.

Definition KeyError (key : string) : exn := PyExn "KeyError" key.

Inductive result (A : Type) : Type :=
| Ok (a : A)
| Raise (e : exn).
Arguments Ok {A} a.
Arguments Raise {A} e.

Definition raises_class {A} (cls : string) (r : result A) : Prop :=
  match r with
  | Ok _ => False
  | Raise e => exn_class e = cls
  end.

(** Truth value of a Python sequence: empty is false. *)
Definition truthy {A} (l : list A) : bool :=
  match l with [] => false | _ :: _ => true end.

(** ** [pygls.types] *)

Inductive TextDocumentSyncKind := NONE | FULL | INCREMENTAL.

Module Position.
Record t := mk { line : nat; character : nat }.
End Position.

Module Range.
Record t := mk { start : Position.t; end_ : Position.t }.
End Range.

Module Location.
Record t := mk { uri : string; range : Range.t }.
End Location.

Module TextEdit.
Record t := mk { range : Range.t; new_text : string }.
End TextEdit.

Module CompletionItem.
(** [kind] is a member of the protocol's integer enumeration. *)
Record t := mk {
  label : string;
  kind : Z;
  detail : string;
  documentation : string;
  insert_text : string }.
End CompletionItem.

Module CompletionList.
Record t := mk { is_incomplete : bool; items : list CompletionItem.t }.
End CompletionList.

Module Hover.
Record t := mk { contents : string }.
End Hover.

Module TextDocumentIdentifier.
Record t := mk { uri : string }.
End TextDocumentIdentifier.

Module VersionedTextDocumentIdentifier.
Record t := mk { uri : string; version : option Z }.
End VersionedTextDocumentIdentifier.

Module TextDocumentItem.
Record t := mk {
  uri : string;
  languageId : string;
  version : option Z;
  text : string }.
End TextDocumentItem.

Module TextDocumentContentChangeEvent.
(** A full-document replacement carries no [range]; a range-based
    (incremental) edit carries one. *)
Record t := mk {
  range : option Range.t;
  rangeLength : option nat;
  text : string }.

Definition is_incremental (c : t) : bool :=
  match range c with Some _ => true | None => false end.
End TextDocumentContentChangeEvent.

Module TextDocumentPositionParams.
Record t := mk {
  textDocument : TextDocumentIdentifier.t;
  position : Position.t }.
End TextDocumentPositionParams.

Module CompletionParams.
Record t := mk {
  textDocument : TextDocumentIdentifier.t;
  position : Position.t }.
End CompletionParams.

Module RenameParams.
Record t := mk {
  textDocument : TextDocumentIdentifier.t;
  position : Position.t;
  newName : string }.
End RenameParams.

Module DidChangeTextDocumentParams.
Record t := mk {
  textDocument : VersionedTextDocumentIdentifier.t;
  contentChanges : list TextDocumentContentChangeEvent.t }.
End DidChangeTextDocumentParams.

Module DidOpenTextDocumentParams.
Record t := mk { textDocument : TextDocumentItem.t }.
End DidOpenTextDocumentParams.

(** ** Python dictionaries, in insertion order

    [changes = {}] in [lsp_rename] is a [dict]: iteration follows insertion
    order and assigning to a key that is present keeps the key's place. *)

Section PyDict.
Context {V : Type}.

Definition pydict := list (string * V).

Fixpoint dict_get (k : string) (d : pydict) : option V :=
  match d with
  | [] => None
  | (k', v) :: d' => if String.eqb k k' then Some v else dict_get k d'
  end.

Fixpoint dict_set (k : string) (v : V) (d : pydict) : pydict :=
  match d with
  | [] => [(k, v)]
  | (k', v') :: d' =>
      if String.eqb k k' then (k, v) :: d' else (k', v') :: dict_set k v d'
  end.

Definition dict_keys (d : pydict) : list string := d.*1.
End PyDict.
Arguments pydict V : clear implicits.

Module WorkspaceEdit.
Record t := mk { changes : pydict (list TextEdit.t) }.
End WorkspaceEdit.

(** ** [pygls.workspace]: the documents the server tracks

    [server.workspace] is an object of the pygls library, which the
    repository imports and does not contain.  The handlers call two of its
    methods, [put_document] and [update_document]; they are modelled here as
    the library has them: the workspace holds a dictionary [_docs] from uri
    to [Document], [put_document] assigns a new [Document] to the uri, and
    [update_document] indexes the dictionary, lets the document apply the
    change and stores the notification's version on it. *)

Module Document.
Record t := mk { uri : string; source : string; version : option Z }.
End Document.

(** The text update of a tracked document, [Document.apply_change], is
    library code outside the repository: the workspace is parametrised by
    it.  It receives the sync kind the workspace was created with, the
    current source and the change. *)
Class DocumentSync := {
  apply_change :
    TextDocumentSyncKind -> string -> TextDocumentContentChangeEvent.t -> string
}.

Module Workspace.
Record t := mk {
  _sync_kind : TextDocumentSyncKind;
  _docs : gmap string Document.t }.

(** [self._docs[doc_uri] = Document(doc_uri, source=..., version=...)] *)
Definition put_document (text_document : TextDocumentItem.t) (ws : t)
  : result unit * t :=
  let doc_uri := TextDocumentItem.uri text_document in
  (Ok tt,
   mk (_sync_kind ws)
      (<[doc_uri := Document.mk doc_uri
                      (TextDocumentItem.text text_document)
                      (TextDocumentItem.version text_document)]> (_docs ws))).

(** [self._docs[doc_uri].apply_change(change)] then
    [self._docs[doc_uri].version = text_doc.version]; indexing an
    untracked uri raises [KeyError]. *)
Definition update_document `{DocumentSync}
    (text_doc : VersionedTextDocumentIdentifier.t)
    (change : TextDocumentContentChangeEvent.t) (ws : t)
  : result unit * t :=
  let doc_uri := VersionedTextDocumentIdentifier.uri text_doc in
  match _docs ws !! doc_uri with
  | None => (Raise (KeyError doc_uri), ws)
  | Some doc =>
      let doc' :=
        Document.mk (Document.uri doc)
          (apply_change (_sync_kind ws) (Document.source doc) change)
          (VersionedTextDocumentIdentifier.version text_doc) in
      (Ok tt, mk (_sync_kind ws) (<[doc_uri := doc']> (_docs ws)))
  end.
End Workspace.

(** ** [pygls.server.LanguageServer] *)

Module LanguageServer.
Record t := mk {
  sync_kind : TextDocumentSyncKind;
  workspace : Workspace.t }.
End LanguageServer.

(** [SERVER = LanguageServer()] followed by
    [SERVER.sync_kind = TextDocumentSyncKind.FULL]; the workspace is created
    with the server's sync kind and tracks no document yet. *)
Definition SERVER : LanguageServer.t :=
  LanguageServer.mk FULL (Workspace.mk FULL ∅).

(** ** Handlers: computations over the server that may raise

    A handler receives the server, returns a value or raises, and leaves the
    server in a (possibly mutated) state; what was mutated before an
    exception stays mutated. *)

Definition handler (A : Type) : Type :=
  LanguageServer.t -> result A * LanguageServer.t.

#[global] Instance handler_ret : MRet handler :=
  fun A (a : A) server => (Ok a, server).

#[global] Instance handler_bind : MBind handler :=
  fun A B (f : A -> handler B) (c : handler A) server =>
    match c server with
    | (Ok a, server') => f a server'
    | (Raise e, server') => (Raise e, server')
    end.

(** A pure computation that may raise. *)
Definition lift_result {A} (r : result A) : handler A :=
  fun server => (r, server).

(** [workspace = server.workspace] followed by a method call on it. *)
Definition on_workspace {A} (op : Workspace.t -> result A * Workspace.t)
  : handler A :=
  fun server =>
    let '(r, ws) := op (LanguageServer.workspace server) in
    (r, LanguageServer.mk (LanguageServer.sync_kind server) ws).

(** [for x in l: body(x)] *)
Fixpoint for_each {A} (l : list A) (body : A -> handler unit) : handler unit :=
  match l with
  | [] => mret tt
  | x :: l' => body x ≫= fun _ => for_each l' body
  end.

(** ** [jedi]: what the analysis engine returns *)

Module Completion.
Record t := mk {
  name : string;
  type : string;
  description : string;
  docstring : string }.
End Completion.

Module JediDefinition.
(** [docstring()] is the empty string when the name has no docstring. *)
Record t := mk {
  module_path : string;
  line : nat;
  column : nat;
  name : string;
  docstring : string }.
End JediDefinition.

Module Script.
(** The four queries of a [jedi.Script]; each may raise. *)
Record t := mk {
  completions : result (list Completion.t);
  goto_assignments : bool -> bool -> result (list JediDefinition.t);
  goto_definitions : result (list JediDefinition.t);
  usages : result (list JediDefinition.t) }.
End Script.

(** ** The helpers imported from [.server_utils] and [.type_map]

    [get_jedi_script(server, params)] reads [params.textDocument] and
    [params.position] of whichever request it is given. *)
Class ServerUtils := {
  get_jedi_script : TextDocumentPositionParams.t -> handler Script.t;
  locations_from_definitions : list JediDefinition.t -> list Location.t
}.

Class TypeMap := {
  get_lsp_type : string -> Z
}.

Definition completion_position (params : CompletionParams.t)
  : TextDocumentPositionParams.t :=
  TextDocumentPositionParams.mk
    (CompletionParams.textDocument params) (CompletionParams.position params).

Definition rename_position (params : RenameParams.t)
  : TextDocumentPositionParams.t :=
  TextDocumentPositionParams.mk
    (RenameParams.textDocument params) (RenameParams.position params).

(** ** The handlers of [server.py] *)

Section Handlers.
Context `{ServerUtils} `{TypeMap} `{DocumentSync}.

Definition completion_item (completion : Completion.t) : CompletionItem.t :=
  CompletionItem.mk
    (Completion.name completion)
    (get_lsp_type (Completion.type completion))
    (Completion.description completion)
    (Completion.docstring completion)
    (Completion.name completion).

Definition lsp_completion (params : CompletionParams.t)
  : handler CompletionList.t :=
  script ← get_jedi_script (completion_position params);
  jedi_completions ← lift_result (Script.completions script);
  mret (CompletionList.mk false (map completion_item jedi_completions)).

Definition lsp_definition (params : TextDocumentPositionParams.t)
  : handler (list Location.t) :=
  script ← get_jedi_script params;
  definitions ← lift_result (Script.goto_assignments script true true);
  mret (locations_from_definitions definitions).

Definition lsp_hover (params : TextDocumentPositionParams.t)
  : handler Hover.t :=
  script ← get_jedi_script params;
  definitions ← lift_result (Script.goto_definitions script);
  mret (Hover.mk
          match definitions with
          | d :: _ => JediDefinition.docstring d
          | [] => "No docstring definition found."
          end).

Definition lsp_references (params : TextDocumentPositionParams.t)
  : handler (list Location.t) :=
  script ← get_jedi_script params;
  definitions ← lift_result (Script.usages script);
  mret (locations_from_definitions definitions).

(** One iteration of the loop of [lsp_rename]; the lookup finds nothing
    exactly when [location.uri not in changes]. *)
Definition rename_step (newName : string)
    (changes : pydict (list TextEdit.t)) (location : Location.t)
  : pydict (list TextEdit.t) :=
  let text_edit := TextEdit.mk (Location.range location) newName in
  match dict_get (Location.uri location) changes with
  | None => dict_set (Location.uri location) [text_edit] changes
  | Some edits =>
      dict_set (Location.uri location) (edits ++ [text_edit]) changes
  end.

Definition lsp_rename (params : RenameParams.t)
  : handler (option WorkspaceEdit.t) :=
  script ← get_jedi_script (rename_position params);
  definitions ← lift_result (Script.usages script);
  let locations := locations_from_definitions definitions in
  if negb (truthy locations) then mret None
  else
    let changes :=
      fold_left (rename_step (RenameParams.newName params)) locations [] in
    mret (Some (WorkspaceEdit.mk changes)).

Definition lsp_did_change (params : DidChangeTextDocumentParams.t)
  : handler unit :=
  if truthy (DidChangeTextDocumentParams.contentChanges params) then
    for_each (DidChangeTextDocumentParams.contentChanges params)
      (fun change =>
         on_workspace
           (Workspace.update_document
              (DidChangeTextDocumentParams.textDocument params) change))
  else mret tt.

Definition lsp_did_open (params : DidOpenTextDocumentParams.t)
  : handler unit :=
  on_workspace
    (Workspace.put_document (DidOpenTextDocumentParams.textDocument params)).
End Handlers.

(** ** What the rename request is specified to build

    The uris of a location sequence, each once, in order of first
    occurrence, and the edits of one uri, in the locations' order. *)

Fixpoint first_seen (uris : list string) : list string :=
  match uris with
  | [] => []
  | u :: uris' => u :: filter (fun v => v ≠ u) (first_seen uris')
  end.

Definition edits_of (newName : string) (u : string) (locations : list Location.t)
  : list TextEdit.t :=
  map (fun location => TextEdit.mk (Location.range location) newName)
      (filter (fun location => Location.uri location = u) locations).

Definition group_by_uri (newName : string) (locations : list Location.t)
  : pydict (list TextEdit.t) :=
  map (fun u => (u, edits_of newName u locations))
      (first_seen (map Location.uri locations)).

(** ** The documents of a server *)

Definition docs (server : LanguageServer.t) : gmap string Document.t :=
  Workspace._docs (LanguageServer.workspace server).

Definition set_docs (server : LanguageServer.t) (d : gmap string Document.t)
  : LanguageServer.t :=
  LanguageServer.mk (LanguageServer.sync_kind server)
    (Workspace.mk (Workspace._sync_kind (LanguageServer.workspace server)) d).

(** The document that results from applying a list of changes, in order,
    under the version [v] of the notification that carried them. *)
Definition changed_document `{DocumentSync} (kind : TextDocumentSyncKind)
    (v : option Z) (changes : list TextDocumentContentChangeEvent.t)
    (doc : Document.t) : Document.t :=
  Document.mk (Document.uri doc)
    (fold_left (apply_change kind) changes (Document.source doc))
    (match changes with [] => Document.version doc | _ :: _ => v end).

(** ** Concrete collaborators, for closed examples *)

(** Full-document replacement: the new source is the change's text. *)
Definition full_replacement : DocumentSync :=
  {| apply_change := fun _ _ change => TextDocumentContentChangeEvent.text change |}.

Definition demo_completions : list Completion.t :=
  [ Completion.mk "path" "module" "module os.path" "Common pathname manipulations.";
    Completion.mk "pardir" "statement" "pardir = '..'" EmptyString;
    Completion.mk "pathsep" "statement" "pathsep = ':'" EmptyString ].

(** A function without a docstring, used from two files. *)
Definition demo_usages : list JediDefinition.t :=
  [ JediDefinition.mk "/w/a.py" 1 4 "f" EmptyString;
    JediDefinition.mk "/w/b.py" 3 0 "f" EmptyString;
    JediDefinition.mk "/w/a.py" 7 8 "f" EmptyString ].

Definition demo_script : Script.t :=
  Script.mk (Ok demo_completions)
    (fun _ _ => Ok (take 1 demo_usages))
    (Ok (take 1 demo_usages))
    (Ok demo_usages).

Definition demo_location (d : JediDefinition.t) : Location.t :=
  let line := JediDefinition.line d - 1 in
  Location.mk ("file://" +:+ JediDefinition.module_path d)
    (Range.mk
       (Position.mk line (JediDefinition.column d))
       (Position.mk line
          (JediDefinition.column d + String.length (JediDefinition.name d)))).

(** An engine that answers every request with [demo_script] and reads
    nothing else. *)
Definition demo_utils : ServerUtils :=
  {| get_jedi_script := fun _ => mret demo_script;
     locations_from_definitions := map demo_location |}.

(** An engine that finds nothing. *)
Definition empty_script : Script.t :=
  Script.mk (Ok []) (fun _ _ => Ok []) (Ok []) (Ok []).

Definition empty_utils : ServerUtils :=
  {| get_jedi_script := fun _ => mret empty_script;
     locations_from_definitions := map demo_location |}.

Definition demo_type_map : TypeMap :=
  {| get_lsp_type := fun type =>
       if String.eqb type "module" then 9%Z
       else if String.eqb type "statement" then 6%Z
       else 1%Z |}.

Definition demo_position : TextDocumentPositionParams.t :=
  TextDocumentPositionParams.mk
    (TextDocumentIdentifier.mk "file:///w/a.py") (Position.mk 0 4).

Definition demo_completion_params : CompletionParams.t :=
  CompletionParams.mk
    (TextDocumentIdentifier.mk "file:///w/a.py") (Position.mk 0 4).

Definition demo_rename_params : RenameParams.t :=
  RenameParams.mk
    (TextDocumentIdentifier.mk "file:///w/a.py") (Position.mk 0 4) "g".

(** A server that tracks [a.py] at version 1. *)
Definition demo_document : Document.t :=
  Document.mk "file:///w/a.py" "def f():
    pass
" (Some 1%Z).

Definition demo_server : LanguageServer.t :=
  set_docs SERVER {[ "file:///w/a.py" := demo_document ]}.

(** A did-open of the tracked [a.py]. *)
Definition demo_reopen : DidOpenTextDocumentParams.t :=
  DidOpenTextDocumentParams.mk
    (TextDocumentItem.mk "file:///w/a.py" "python" (Some 5%Z) "x = 1").

(** A did-change of [a.py], version 5, with two entries: a range-based
    edit followed by a full replacement. *)
Definition demo_range_change : TextDocumentContentChangeEvent.t :=
  TextDocumentContentChangeEvent.mk
    (Some (Range.mk (Position.mk 0 4) (Position.mk 0 5))) (Some 1) "g".

Definition demo_full_change : TextDocumentContentChangeEvent.t :=
  TextDocumentContentChangeEvent.mk None None "def g(): pass".

Definition demo_did_change : DidChangeTextDocumentParams.t :=
  DidChangeTextDocumentParams.mk
    (VersionedTextDocumentIdentifier.mk "file:///w/a.py" (Some 5%Z))
    [demo_range_change; demo_full_change].

(** A did-change of [a.py] that carries no entry. *)
Definition demo_empty_change : DidChangeTextDocumentParams.t :=
  DidChangeTextDocumentParams.mk
    (VersionedTextDocumentIdentifier.mk "file:///w/a.py" (Some 2%Z)) [].

(** ** The claims the code departs from, as the specification words them *)

Definition has_documentation (d : JediDefinition.t) : bool :=
  negb (String.eqb (JediDefinition.docstring d) EmptyString).

(** Hover as specified: the first definition's documentation when there is
    one, the placeholder otherwise. *)
Definition specified_hover (definitions : list JediDefinition.t) : Hover.t :=
  Hover.mk
    match definitions with
    | d :: _ =>
        if has_documentation d then JediDefinition.docstring d
        else "no documentation available"
    | [] => "no documentation available"
    end.

(** Versions as specified: [n] applied changes add [n] to the version. *)
Definition version_counts_changes (before after : Document.t) (n : nat) : Prop :=
  Document.version after
  = (fun v => (v + Z.of_nat n)%Z) <$> Document.version before.

(** ** The position translator

    The conversion between protocol positions and engine offsets belongs to
    the helpers of [.server_utils], which [server.py] only calls.  A text is
    the sequence of its Unicode scalar values (what a Python [str] indexes);
    an offset counts scalar values from the start of the text; the
    [character] of a position counts UTF-16 code units within its line. *)

Module PositionTranslator.

Definition NEWLINE : Z := 10.

Definition PositionOutOfRange : exn := PyExn "PositionOutOfRange" EmptyString.

(** Modelled from the spec: the shared code-unit-counting routine of the
    position translator.  A scalar value outside the basic plane is a
    surrogate pair in UTF-16 and counts as two units. *)
Definition utf16_units (c : Z) : nat :=
  if (c <? 65536)%Z then 1 else 2.

(** Modelled from the spec: the first walk of [toOffset], over line
    boundaries.  Returns the offset at which line [line] starts and the
    text from there on. *)
Fixpoint walk_lines (rest : list Z) (line : nat) (offset : nat) {struct rest}
  : result (nat * list Z) :=
  match line with
  | 0 => Ok (offset, rest)
  | S line' =>
      match rest with
      | [] => Raise PositionOutOfRange
      | c :: rest' =>
          walk_lines rest' (if (c =? NEWLINE)%Z then line' else line)
            (S offset)
      end
  end.

(** Modelled from the spec: the second walk of [toOffset], over the code
    units of the target line.  It stops when [character] units have been
    counted and fails past the end of the line or inside a surrogate
    pair, where no offset corresponds to the position. *)
Fixpoint walk_units (rest : list Z) (character : nat) (offset : nat)
    {struct rest} : result nat :=
  match character with
  | 0 => Ok offset
  | S _ =>
      match rest with
      | [] => Raise PositionOutOfRange
      | c :: rest' =>
          if (c =? NEWLINE)%Z then Raise PositionOutOfRange
          else if (utf16_units c <=? character)%nat
          then walk_units rest' (character - utf16_units c) (S offset)
          else Raise PositionOutOfRange
      end
  end.

(** Modelled from the spec: [toOffset(text, position)] of the position
    translator, absent from the sources. *)
Definition toOffset (text : list Z) (position : Position.t) : result nat :=
  match walk_lines text (Position.line position) 0 with
  | Ok (offset, rest) => walk_units rest (Position.character position) offset
  | Raise e => Raise e
  end.

(** Modelled from the spec: the walk of [fromOffset], which counts lines
    and, with the same routine as [toOffset], the code units of the
    current line. *)
Fixpoint fromOffset_walk (rest : list Z) (offset : nat) (line character : nat)
  : result Position.t :=
  match offset with
  | 0 => Ok (Position.mk line character)
  | S offset' =>
      match rest with
      | [] => Raise PositionOutOfRange
      | c :: rest' =>
          if (c =? NEWLINE)%Z then fromOffset_walk rest' offset' (S line) 0
          else fromOffset_walk rest' offset' line (character + utf16_units c)
      end
  end.

(** Modelled from the spec: [fromOffset(text, offset)] of the position
    translator, absent from the sources. *)
Definition fromOffset (text : list Z) (offset : nat) : result Position.t :=
  fromOffset_walk text offset 0 0.

(** The lines of a text, without their terminators. *)
Fixpoint split_lines (text : list Z) : list (list Z) :=
  match text with
  | [] => [[]]
  | c :: text' =>
      if (c =? NEWLINE)%Z then [] :: split_lines text'
      else match split_lines text' with
           | ln :: lns => (c :: ln) :: lns
           | [] => [[c]]
           end
  end.

Definition units (l : list Z) : nat := sum_list (map utf16_units l).

(** A position is valid in a text when its line exists and its character
    is the UTF-16 length of a prefix of that line. *)
Definition valid_position (text : list Z) (p : Position.t) : Prop :=
  exists ln k,
    split_lines text !! Position.line p = Some ln /\
    k <= length ln /\
    units (take k ln) = Position.character p.

(** [x = "𝒳"] then [y = 1]: the first line holds an astral character
    (U+1D4B3). *)
Definition astral_text : list Z :=
  [120; 32; 61; 32; 34; 119987; 34; 10; 121; 32; 61; 32; 49; 10]%Z.

End PositionTranslator.

(** ** Notions used by the further properties *)

Definition location_pair (location : Location.t) : string * Range.t :=
  (Location.uri location, Location.range location).

(** The (uri, range) pairs a workspace edit touches, key by key and, under
    a key, edit by edit. *)
Definition edit_locations (changes : pydict (list TextEdit.t))
  : list (string * Range.t) :=
  flat_map (fun entry => map (fun e => (entry.1, TextEdit.range e)) entry.2)
    changes.

(** Every tracked document is stored under its own uri. *)
Definition docs_keyed_by_uri (server : LanguageServer.t) : Prop :=
  forall u d, docs server !! u = Some d -> Document.uri d = u.

(** An engine helper that raises before any script exists. *)
Definition unreadable : exn := PyExn "FileNotFoundError" "/w/a.py".

Definition failing_utils : ServerUtils :=
  {| get_jedi_script := fun _ server => (Raise unreadable, server);
     locations_from_definitions := map demo_location |}.

(** A script all of whose queries raise. *)
Definition broken : exn := PyExn "RecursionError" "maximum recursion depth exceeded".

Definition broken_script : Script.t :=
  Script.mk (Raise broken) (fun _ _ => Raise broken) (Raise broken)
    (Raise broken).

Definition broken_utils : ServerUtils :=
  {| get_jedi_script := fun _ => mret broken_script;
     locations_from_definitions := map demo_location |}.

(** A did-change for [c.py], which [demo_server] does not track. *)
Definition demo_untracked_change : DidChangeTextDocumentParams.t :=
  DidChangeTextDocumentParams.mk
    (VersionedTextDocumentIdentifier.mk "file:///w/c.py" (Some 3%Z))
    [demo_full_change; demo_range_change].

(** A did-open of [b.py]. *)
Definition demo_open_b : DidOpenTextDocumentParams.t :=
  DidOpenTextDocumentParams.mk
    (TextDocumentItem.mk "file:///w/b.py" "python" (Some 1%Z) "import a").

(** Two equal lists are rearrangements of one another. *)
Ltac eq_perm :=
  match goal with
  | |- ?a ≡ₚ ?b => enough (a = b) as -> by reflexivity
  end.

(** * Properties of the handlers *)

Section HandlerFacts.
Context `{ServerUtils} `{TypeMap} `{DocumentSync}.

(** Running a handler that asks the engine one question. *)
Lemma run_query {A B} (q : Script.t -> result A) (k : A -> handler B)
    params server script server' :
  get_jedi_script params server = (Ok script, server') ->
  (script ← get_jedi_script params; x ← lift_result (q script); k x) server
  = match q script with
    | Ok x => k x server'
    | Raise e => (Raise e, server')
    end.
Proof.
  intros Hscript. unfold mbind, handler_bind, lift_result.
  rewrite Hscript. destruct (q script); reflexivity.
Qed.

(** A handler that only asks the engine leaves the server as the engine's
    helper left it. *)
Lemma query_state {A B} (q : Script.t -> result A) (f : A -> B)
    params server :
  ((script ← get_jedi_script params; x ← lift_result (q script);
    mret (f x)) server).2
  = (get_jedi_script params server).2.
Proof.
  unfold mbind, handler_bind, lift_result, mret, handler_ret.
  destruct (get_jedi_script params server) as [[script|e] server']; simpl;
    [destruct (q script)|]; reflexivity.
Qed.

(** C4: the completion list holds one item per engine completion, item
    [i] built from completion [i], and is never flagged incomplete. *)
Theorem lsp_completion_preserves_order params server script server'
    jedi_completions :
  get_jedi_script (completion_position params) server = (Ok script, server') ->
  Script.completions script = Ok jedi_completions ->
  exists completion_list,
    (lsp_completion params server).1 = Ok completion_list /\
    CompletionList.is_incomplete completion_list = false /\
    length (CompletionList.items completion_list) = length jedi_completions /\
    forall i,
      CompletionList.items completion_list !! i
      = completion_item <$> jedi_completions !! i.
Proof.
  intros Hscript Hcompletions. unfold lsp_completion.
  rewrite (run_query Script.completions _ _ _ _ _ Hscript), Hcompletions.
  eexists. split; [reflexivity|]. simpl.
  split; [reflexivity|]. split; [apply length_map|].
  intros i. apply list_lookup_fmap.
Qed.

(** C2, as the code has it: hover returns the docstring of the first
    definition as it is, empty or not; the text "No docstring definition
    found." stands in only when the engine found no definition, and in
    neither case does the handler raise. *)
Theorem lsp_hover_first_docstring params server script server' definitions :
  get_jedi_script params server = (Ok script, server') ->
  Script.goto_definitions script = Ok definitions ->
  exists hover,
    (lsp_hover params server).1 = Ok hover /\
    (forall d rest, definitions = d :: rest ->
       Hover.contents hover = JediDefinition.docstring d) /\
    (definitions = [] ->
       Hover.contents hover = "No docstring definition found.").
Proof.
  intros Hscript Hdefinitions. unfold lsp_hover.
  rewrite (run_query Script.goto_definitions _ _ _ _ _ Hscript), Hdefinitions.
  eexists. split; [reflexivity|]. simpl. split.
  - intros d rest ->. reflexivity.
  - intros ->. reflexivity.
Qed.

(** C7: a did-change whose change list is empty returns normally and
    leaves the server as it was: every tracked document keeps its text and
    its version, and no document appears or disappears. *)
Theorem lsp_did_change_empty_noop params server :
  DidChangeTextDocumentParams.contentChanges params = [] ->
  (lsp_did_change params server).1 = Ok tt /\
  (lsp_did_change params server).2 = server /\
  forall uri, docs (lsp_did_change params server).2 !! uri = docs server !! uri.
Proof.
  intros Hempty. unfold lsp_did_change. rewrite Hempty. cbn [truthy].
  repeat split.
Qed.

(** C10: when the engine helper only reads the server, the five request
    handlers return the server exactly as they received it; rename in
    particular applies none of the edits it proposes. *)
Theorem read_handlers_leave_server_unchanged :
  (forall params server, (get_jedi_script params server).2 = server) ->
  forall server,
    (forall params, (lsp_completion params server).2 = server) /\
    (forall params, (lsp_definition params server).2 = server) /\
    (forall params, (lsp_hover params server).2 = server) /\
    (forall params, (lsp_references params server).2 = server) /\
    (forall params, (lsp_rename params server).2 = server).
Proof.
  intros Hread server. repeat split; intros params.
  - unfold lsp_completion.
    rewrite (query_state Script.completions). apply Hread.
  - unfold lsp_definition.
    rewrite (query_state (fun s => Script.goto_assignments s true true)).
    apply Hread.
  - unfold lsp_hover.
    rewrite (query_state Script.goto_definitions
               (fun definitions => Hover.mk _)).
    apply Hread.
  - unfold lsp_references.
    rewrite (query_state Script.usages). apply Hread.
  - unfold lsp_rename, mbind, handler_bind, lift_result, mret, handler_ret.
    specialize (Hread (rename_position params) server).
    destruct (get_jedi_script (rename_position params) server)
      as [[script|e] server']; simpl in *; subst server'; [|reflexivity].
    destruct (Script.usages script) as [definitions|e]; [|reflexivity].
    destruct (negb (truthy (locations_from_definitions definitions)));
      reflexivity.
Qed.
End HandlerFacts.

(** ** Rename: the loop builds the grouping *)

Section FirstSeen.
Lemma elem_of_first_seen (uris : list string) u :
  u ∈ first_seen uris <-> u ∈ uris.
Proof.
  induction uris as [|v uris IH]; simpl; [reflexivity|].
  rewrite !elem_of_cons, list_elem_of_filter, IH.
  destruct (decide (u = v)); tauto.
Qed.

Lemma NoDup_first_seen (uris : list string) : NoDup (first_seen uris).
Proof.
  induction uris as [|v uris IH]; simpl; [constructor|].
  constructor; [|by apply NoDup_filter].
  rewrite list_elem_of_filter. tauto.
Qed.

(** A uri that comes last is a new key only if it was not seen before. *)
Lemma first_seen_snoc (uris : list string) u :
  first_seen (uris ++ [u])
  = if decide (u ∈ uris) then first_seen uris else first_seen uris ++ [u].
Proof.
  induction uris as [|v uris IH]; [reflexivity|].
  simpl. rewrite IH.
  destruct (decide (u ∈ uris)) as [Hin|Hnin],
           (decide (u ∈ v :: uris)) as [Hin'|Hnin'].
  - reflexivity.
  - exfalso. apply Hnin'. by right.
  - apply elem_of_cons in Hin' as [->|Hin']; [|done].
    rewrite filter_app, filter_cons_False by tauto.
    by rewrite app_nil_r.
  - rewrite not_elem_of_cons in Hnin'.
    rewrite filter_app, filter_cons_True by tauto.
    reflexivity.
Qed.
End FirstSeen.

Section DictFacts.
Context {V : Type}.
Implicit Types (g : string -> V) (ks : list string).

Lemma dict_get_tabulate g ks u :
  dict_get u (map (fun k => (k, g k)) ks)
  = if decide (u ∈ ks) then Some (g u) else None.
Proof.
  induction ks as [|k ks IH]; [reflexivity|].
  cbn [dict_get map]. destruct (String.eqb_spec u k) as [->|Hne].
  - destruct (decide (k ∈ k :: ks)) as [|Hnin]; [reflexivity|].
    exfalso. apply Hnin. by left.
  - rewrite IH.
    destruct (decide (u ∈ ks)), (decide (u ∈ k :: ks)) as [Hin'|Hnin'];
      try reflexivity.
    + exfalso. apply Hnin'. by right.
    + apply elem_of_cons in Hin' as [?|?]; done.
Qed.

(** Assigning to a key that is absent appends it. *)
Lemma dict_set_tabulate_new g ks u v :
  u ∉ ks ->
  dict_set u v (map (fun k => (k, g k)) ks)
  = map (fun k => (k, g k)) ks ++ [(u, v)].
Proof.
  induction ks as [|k ks IH]; simpl; intros Hnin; [reflexivity|].
  rewrite not_elem_of_cons in Hnin. destruct Hnin as [Hne Hnin].
  destruct (String.eqb_spec u k); [done|]. by rewrite IH.
Qed.

(** Assigning to a key that is present changes its value in place. *)
Lemma dict_set_tabulate_old g g' ks u :
  NoDup ks -> u ∈ ks ->
  (forall k, k ≠ u -> g' k = g k) ->
  dict_set u (g' u) (map (fun k => (k, g k)) ks)
  = map (fun k => (k, g' k)) ks.
Proof.
  intros Hnodup Hin Hother.
  induction ks as [|k ks IH]; simpl; [by apply elem_of_nil in Hin|].
  apply NoDup_cons in Hnodup as [Hk Hnodup].
  destruct (String.eqb_spec u k) as [->|Hne].
  - f_equal. apply map_ext_in. intros k' Hk'.
    rewrite <- list_elem_of_In in Hk'.
    rewrite Hother; [reflexivity|]. intros ->. done.
  - rewrite (Hother k) by congruence. f_equal. apply IH; [done|].
    apply elem_of_cons in Hin as [?|?]; done.
Qed.
End DictFacts.

Section RenameFacts.
Context `{ServerUtils}.

Lemma edits_of_snoc newName u locations location :
  edits_of newName u (locations ++ [location])
  = edits_of newName u locations
    ++ (if decide (Location.uri location = u)
        then [TextEdit.mk (Location.range location) newName] else []).
Proof.
  unfold edits_of. rewrite filter_app, map_app. f_equal.
  rewrite filter_cons, filter_nil.
  destruct (decide (Location.uri location = u)); reflexivity.
Qed.

Lemma edits_of_unseen newName u locations :
  u ∉ map Location.uri locations -> edits_of newName u locations = [].
Proof.
  intros Hnin. unfold edits_of.
  induction locations as [|l locations IH]; [reflexivity|].
  simpl in Hnin. rewrite not_elem_of_cons in Hnin. destruct Hnin as [Hne Hnin].
  rewrite filter_cons_False by done. by apply IH.
Qed.

(** One turn of the loop extends the grouping by one location. *)
Lemma rename_step_group newName locations location :
  rename_step newName (group_by_uri newName locations) location
  = group_by_uri newName (locations ++ [location]).
Proof.
  unfold rename_step, group_by_uri.
  rewrite dict_get_tabulate, (map_app Location.uri). cbn [map].
  rewrite first_seen_snoc.
  set (u := Location.uri location).
  set (uris := map Location.uri locations).
  destruct (decide (u ∈ uris)) as [Hin|Hnin].
  - rewrite decide_True by (by apply elem_of_first_seen).
    replace (edits_of newName u locations
             ++ [TextEdit.mk (Location.range location) newName])
      with (edits_of newName u (locations ++ [location])).
    + apply (dict_set_tabulate_old
               (fun k => edits_of newName k locations)
               (fun k => edits_of newName k (locations ++ [location]))).
      * apply NoDup_first_seen.
      * by apply elem_of_first_seen.
      * intros k Hk. rewrite edits_of_snoc.
        rewrite decide_False by (fold u; done). apply app_nil_r.
    + rewrite edits_of_snoc. rewrite decide_True by done. reflexivity.
  - rewrite decide_False by (by rewrite elem_of_first_seen).
    rewrite dict_set_tabulate_new by (by rewrite elem_of_first_seen).
    rewrite map_app. simpl. f_equal.
    + apply map_ext_in. intros k Hk.
      rewrite <- list_elem_of_In, elem_of_first_seen in Hk.
      rewrite edits_of_snoc.
      rewrite decide_False by (fold u; intros ->; done).
      by rewrite app_nil_r.
    + rewrite edits_of_snoc, decide_True by done.
      rewrite (edits_of_unseen newName u locations) by done. reflexivity.
Qed.

Lemma rename_loop_group newName locations :
  fold_left (rename_step newName) locations [] = group_by_uri newName locations.
Proof.
  induction locations as [|location locations IH] using rev_ind;
    [reflexivity|].
  rewrite fold_left_app. simpl. rewrite IH. apply rename_step_group.
Qed.

(** C1: with no location the rename handler returns [None]; otherwise it
    returns a workspace edit whose keys are the distinct uris of the
    locations, each once and in order of first occurrence, and whose
    entry for a uri lists, in the locations' order, one edit per location
    of that uri, replacing its range by the new name. *)
Theorem lsp_rename_groups_edits params server script server' definitions :
  get_jedi_script (rename_position params) server = (Ok script, server') ->
  Script.usages script = Ok definitions ->
  let locations := locations_from_definitions definitions in
  let newName := RenameParams.newName params in
  (locations = [] -> (lsp_rename params server).1 = Ok None) /\
  (locations ≠ [] ->
   exists changes,
     (lsp_rename params server).1 = Ok (Some (WorkspaceEdit.mk changes)) /\
     NoDup (dict_keys changes) /\
     dict_keys changes = first_seen (map Location.uri locations) /\
     (forall u, u ∈ map Location.uri locations ->
        dict_get u changes
        = Some (map (fun l => TextEdit.mk (Location.range l) newName)
                  (filter (fun l => Location.uri l = u) locations))) /\
     (forall u, u ∉ map Location.uri locations -> dict_get u changes = None)).
Proof.
  intros Hscript Husages locations newName. unfold lsp_rename.
  rewrite (run_query Script.usages _ _ _ _ _ Hscript), Husages.
  fold locations newName. split.
  - intros ->. reflexivity.
  - intros Hsome.
    assert (Htruthy : truthy locations = true) by (by destruct locations).
    rewrite Htruthy. cbn [negb].
    exists (group_by_uri newName locations).
    rewrite rename_loop_group.
    assert (Hkeys : dict_keys (group_by_uri newName locations)
                    = first_seen (map Location.uri locations)).
    { unfold dict_keys, group_by_uri.
      change (fmap fst) with (map (@fst string (list TextEdit.t))).
      rewrite map_map. simpl. apply map_id. }
    split; [reflexivity|]. rewrite Hkeys.
    split; [apply NoDup_first_seen|]. split; [reflexivity|].
    unfold group_by_uri. split; intros u Hu; rewrite dict_get_tabulate.
    + rewrite decide_True by (by apply elem_of_first_seen). reflexivity.
    + rewrite decide_False by (by rewrite elem_of_first_seen). reflexivity.
Qed.
End RenameFacts.

(** ** The document notifications *)

Section DocumentFacts.
Context `{DocumentSync}.

Lemma set_docs_id server d :
  docs server = d -> set_docs server d = server.
Proof. intros <-. by destruct server as [k [wk d]]. Qed.

Lemma set_docs_set_docs server d d' :
  set_docs (set_docs server d) d' = set_docs server d'.
Proof. reflexivity. Qed.

Lemma docs_set_docs server d : docs (set_docs server d) = d.
Proof. reflexivity. Qed.

(** One call of [update_document] on a tracked document. *)
Lemma update_document_tracked text_doc change server doc :
  docs server !! VersionedTextDocumentIdentifier.uri text_doc = Some doc ->
  on_workspace (Workspace.update_document text_doc change) server
  = (Ok tt,
     set_docs server
       (<[VersionedTextDocumentIdentifier.uri text_doc :=
            changed_document
              (Workspace._sync_kind (LanguageServer.workspace server))
              (VersionedTextDocumentIdentifier.version text_doc)
              [change] doc]> (docs server))).
Proof.
  intros Hdoc. unfold on_workspace, Workspace.update_document.
  unfold docs in Hdoc. rewrite Hdoc. reflexivity.
Qed.

Lemma changed_document_cons kind v change changes doc :
  changed_document kind v changes (changed_document kind v [change] doc)
  = changed_document kind v (change :: changes) doc.
Proof. unfold changed_document. by destruct changes. Qed.

(** The loop of [lsp_did_change] over a tracked document never raises
    and leaves the document as [changed_document] describes. *)
Lemma update_loop_tracked text_doc changes : forall server doc,
  docs server !! VersionedTextDocumentIdentifier.uri text_doc = Some doc ->
  for_each changes
    (fun change => on_workspace (Workspace.update_document text_doc change))
    server
  = (Ok tt,
     set_docs server
       (<[VersionedTextDocumentIdentifier.uri text_doc :=
            changed_document
              (Workspace._sync_kind (LanguageServer.workspace server))
              (VersionedTextDocumentIdentifier.version text_doc)
              changes doc]> (docs server))).
Proof.
  induction changes as [|change changes IH]; intros server doc Hdoc.
  - cbn [for_each]. unfold mret, handler_ret. f_equal. symmetry.
    apply set_docs_id. rewrite insert_id; [reflexivity|].
    rewrite Hdoc. by destruct doc.
  - cbn [for_each]. unfold mbind, handler_bind.
    rewrite (update_document_tracked _ _ _ _ Hdoc).
    erewrite IH by (rewrite docs_set_docs; apply lookup_insert_eq).
    rewrite set_docs_set_docs, docs_set_docs, insert_insert_eq.
    cbn [set_docs LanguageServer.workspace Workspace._sync_kind].
    by rewrite changed_document_cons.
Qed.

Lemma lsp_did_change_tracked params server doc :
  let text_doc := DidChangeTextDocumentParams.textDocument params in
  docs server !! VersionedTextDocumentIdentifier.uri text_doc = Some doc ->
  lsp_did_change params server
  = (Ok tt,
     set_docs server
       (<[VersionedTextDocumentIdentifier.uri text_doc :=
            changed_document
              (Workspace._sync_kind (LanguageServer.workspace server))
              (VersionedTextDocumentIdentifier.version text_doc)
              (DidChangeTextDocumentParams.contentChanges params) doc]>
          (docs server))).
Proof.
  intros text_doc Hdoc. unfold lsp_did_change.
  rewrite <- (update_loop_tracked text_doc _ server doc Hdoc).
  by destruct (DidChangeTextDocumentParams.contentChanges params).
Qed.

(** C3, as the code has it: the server declares full-document sync, and
    the did-change handler does not look at the kind of a change.  For a
    tracked document a change list that holds range-based edits is
    applied like any other: the handler returns normally, and the
    document's source is what the workspace's [apply_change] makes of
    the entries, taken in order. *)
Theorem lsp_did_change_forwards_range_edits params server doc :
  let text_doc := DidChangeTextDocumentParams.textDocument params in
  let changes := DidChangeTextDocumentParams.contentChanges params in
  docs server !! VersionedTextDocumentIdentifier.uri text_doc = Some doc ->
  Exists (fun c => TextDocumentContentChangeEvent.is_incremental c = true)
    changes ->
  LanguageServer.sync_kind SERVER = FULL /\
  (lsp_did_change params server).1 = Ok tt /\
  exists doc',
    docs (lsp_did_change params server).2
      !! VersionedTextDocumentIdentifier.uri text_doc = Some doc' /\
    Document.source doc'
    = fold_left
        (apply_change
           (Workspace._sync_kind (LanguageServer.workspace server)))
        changes (Document.source doc).
Proof.
  intros text_doc changes Hdoc _. split; [reflexivity|].
  rewrite (lsp_did_change_tracked params server doc Hdoc).
  split; [reflexivity|]. eexists. split.
  - cbn [snd]. rewrite docs_set_docs. apply lookup_insert_eq.
  - reflexivity.
Qed.

(** C6, as the code has it: a did-change with at least one entry leaves
    the tracked document at the version the notification carries,
    whatever the earlier version and however many entries were applied;
    the server counts nothing. *)
Theorem lsp_did_change_sets_notified_version params server doc :
  let text_doc := DidChangeTextDocumentParams.textDocument params in
  docs server !! VersionedTextDocumentIdentifier.uri text_doc = Some doc ->
  DidChangeTextDocumentParams.contentChanges params ≠ [] ->
  exists doc',
    docs (lsp_did_change params server).2
      !! VersionedTextDocumentIdentifier.uri text_doc = Some doc' /\
    Document.version doc' = VersionedTextDocumentIdentifier.version text_doc.
Proof.
  intros text_doc Hdoc Hsome.
  rewrite (lsp_did_change_tracked params server doc Hdoc).
  eexists. split.
  - cbn [snd]. rewrite docs_set_docs. apply lookup_insert_eq.
  - unfold changed_document. cbn [Document.version].
    by destruct (DidChangeTextDocumentParams.contentChanges params).
Qed.

(** C8, as the code has it: did-open never fails.  Opening a uri,
    tracked or not, stores a fresh document made of the notification's
    text and version under that uri, replacing whatever was tracked
    there, and leaves every other document alone. *)
Theorem lsp_did_open_overwrites params server :
  let item := DidOpenTextDocumentParams.textDocument params in
  let server' := (lsp_did_open params server).2 in
  (lsp_did_open params server).1 = Ok tt /\
  docs server' !! TextDocumentItem.uri item
  = Some (Document.mk (TextDocumentItem.uri item)
            (TextDocumentItem.text item) (TextDocumentItem.version item)) /\
  forall u, u ≠ TextDocumentItem.uri item ->
    docs server' !! u = docs server !! u.
Proof.
  intros item server'. split; [reflexivity|]. split.
  - apply lookup_insert_eq.
  - intros u Hu. subst server'. unfold lsp_did_open, on_workspace, docs.
    cbn. by rewrite lookup_insert_ne.
Qed.
End DocumentFacts.

(** ** Closed examples *)

(** The completion theorem at the demo engine: three items, in order. *)
Lemma lsp_completion_preserves_order_witness :
  exists completion_list,
    (@lsp_completion demo_utils demo_type_map demo_completion_params SERVER).1
    = Ok completion_list /\
    CompletionList.is_incomplete completion_list = false /\
    length (CompletionList.items completion_list) = length demo_completions /\
    forall i,
      CompletionList.items completion_list !! i
      = @completion_item demo_type_map <$> demo_completions !! i.
Proof.
  apply (@lsp_completion_preserves_order demo_utils demo_type_map
           demo_completion_params SERVER demo_script SERVER demo_completions);
    reflexivity.
Defined.

(** The hover theorem at the demo engine. *)
Lemma lsp_hover_first_docstring_witness :
  exists hover,
    (@lsp_hover demo_utils demo_position SERVER).1 = Ok hover /\
    (forall d rest, take 1 demo_usages = d :: rest ->
       Hover.contents hover = JediDefinition.docstring d) /\
    (take 1 demo_usages = [] ->
       Hover.contents hover = "No docstring definition found.").
Proof.
  apply (@lsp_hover_first_docstring demo_utils demo_position SERVER
           demo_script SERVER (take 1 demo_usages)); reflexivity.
Defined.

(** Hover on a definition without a docstring shows the empty docstring,
    not a placeholder. *)
Lemma lsp_hover_no_docstring_counterexample :
  Script.goto_definitions demo_script = Ok (take 1 demo_usages) /\
  (@lsp_hover demo_utils demo_position SERVER).1 = Ok (Hover.mk EmptyString) /\
  (@lsp_hover demo_utils demo_position SERVER).1
  ≠ Ok (specified_hover (take 1 demo_usages)).
Proof. split; [reflexivity|]. split; [reflexivity|]. discriminate. Qed.

(** The rename theorem at the demo engine: three usages in two files. *)
Lemma lsp_rename_groups_edits_witness :
  let locations := map demo_location demo_usages in
  (locations = [] ->
   (@lsp_rename demo_utils demo_rename_params SERVER).1 = Ok None) /\
  (locations ≠ [] ->
   exists changes,
     (@lsp_rename demo_utils demo_rename_params SERVER).1
     = Ok (Some (WorkspaceEdit.mk changes)) /\
     NoDup (dict_keys changes) /\
     dict_keys changes = first_seen (map Location.uri locations) /\
     (forall u, u ∈ map Location.uri locations ->
        dict_get u changes
        = Some (map (fun l => TextEdit.mk (Location.range l) "g")
                  (filter (fun l => Location.uri l = u) locations))) /\
     (forall u, u ∉ map Location.uri locations -> dict_get u changes = None)).
Proof.
  apply (@lsp_rename_groups_edits demo_utils demo_rename_params SERVER
           demo_script SERVER demo_usages); reflexivity.
Defined.

Example lsp_rename_demo :
  (@lsp_rename demo_utils demo_rename_params SERVER).1
  = Ok (Some (WorkspaceEdit.mk
         [ ("file:///w/a.py",
            [ TextEdit.mk (Range.mk (Position.mk 0 4) (Position.mk 0 5)) "g";
              TextEdit.mk (Range.mk (Position.mk 6 8) (Position.mk 6 9)) "g" ]);
           ("file:///w/b.py",
            [ TextEdit.mk (Range.mk (Position.mk 2 0) (Position.mk 2 1)) "g" ])
         ])).
Proof. reflexivity. Qed.

Example lsp_rename_nothing_found :
  (@lsp_rename empty_utils demo_rename_params SERVER).1 = Ok None.
Proof. reflexivity. Qed.

(** The frame theorem at the demo engine, which only reads. *)
Lemma read_handlers_leave_server_unchanged_witness :
  (forall params, (@lsp_completion demo_utils demo_type_map params demo_server).2
                  = demo_server) /\
  (forall params, (@lsp_definition demo_utils params demo_server).2
                  = demo_server) /\
  (forall params, (@lsp_hover demo_utils params demo_server).2 = demo_server) /\
  (forall params, (@lsp_references demo_utils params demo_server).2
                  = demo_server) /\
  (forall params, (@lsp_rename demo_utils params demo_server).2 = demo_server).
Proof.
  apply (@read_handlers_leave_server_unchanged demo_utils demo_type_map).
  intros params server. reflexivity.
Defined.

(** An empty did-change for the tracked [a.py]. *)
Lemma lsp_did_change_empty_noop_witness :
  (@lsp_did_change full_replacement demo_empty_change demo_server).1 = Ok tt /\
  (@lsp_did_change full_replacement demo_empty_change demo_server).2
  = demo_server /\
  forall uri,
    docs (@lsp_did_change full_replacement demo_empty_change demo_server).2
      !! uri = docs demo_server !! uri.
Proof.
  apply (@lsp_did_change_empty_noop full_replacement demo_empty_change
           demo_server).
  reflexivity.
Defined.

(** A did-change that carries a range-based edit for the tracked [a.py]
    is applied, not refused. *)
Lemma lsp_did_change_range_edit_counterexample :
  existsb TextDocumentContentChangeEvent.is_incremental
    (DidChangeTextDocumentParams.contentChanges demo_did_change) = true /\
  (@lsp_did_change full_replacement demo_did_change demo_server).1 = Ok tt /\
  ~ raises_class "UnsupportedSyncMode"
      (@lsp_did_change full_replacement demo_did_change demo_server).1.
Proof.
  split; [reflexivity|].
  assert (Hrun : (@lsp_did_change full_replacement demo_did_change
                    demo_server).1 = Ok tt) by (vm_compute; reflexivity).
  split; [exact Hrun|]. rewrite Hrun. intros [].
Qed.

Lemma lsp_did_change_forwards_range_edits_witness :
  LanguageServer.sync_kind SERVER = FULL /\
  (@lsp_did_change full_replacement demo_did_change demo_server).1 = Ok tt /\
  exists doc',
    docs (@lsp_did_change full_replacement demo_did_change demo_server).2
      !! "file:///w/a.py" = Some doc' /\
    Document.source doc'
    = fold_left (@apply_change full_replacement FULL)
        [demo_range_change; demo_full_change] (Document.source demo_document).
Proof.
  apply (@lsp_did_change_forwards_range_edits full_replacement
           demo_did_change demo_server demo_document).
  - vm_compute. reflexivity.
  - apply Exists_cons_hd. reflexivity.
Defined.

(** Two entries applied to version 1 under a notification of version 5:
    the document ends at version 5, which is neither 1 + 2 (one step per
    entry) nor 1 + 1 (one step per notification). *)
Lemma lsp_did_change_version_counterexample :
  length (DidChangeTextDocumentParams.contentChanges demo_did_change) = 2 /\
  exists after,
    docs (@lsp_did_change full_replacement demo_did_change demo_server).2
      !! "file:///w/a.py" = Some after /\
    Document.version after = Some 5%Z /\
    ~ version_counts_changes demo_document after 2 /\
    ~ version_counts_changes demo_document after 1.
Proof.
  split; [reflexivity|].
  exists (Document.mk "file:///w/a.py" "def g(): pass" (Some 5%Z)).
  split; [vm_compute; reflexivity|]. split; [reflexivity|].
  unfold version_counts_changes. cbn. split; discriminate.
Qed.

Lemma lsp_did_change_sets_notified_version_witness :
  exists doc',
    docs (@lsp_did_change full_replacement demo_did_change demo_server).2
      !! "file:///w/a.py" = Some doc' /\
    Document.version doc' = Some 5%Z.
Proof.
  apply (@lsp_did_change_sets_notified_version full_replacement
           demo_did_change demo_server demo_document).
  - vm_compute. reflexivity.
  - discriminate.
Defined.

(** A did-open of the tracked [a.py] succeeds. *)
Lemma lsp_did_open_tracked_counterexample :
  is_Some (docs demo_server !! "file:///w/a.py") /\
  (lsp_did_open demo_reopen demo_server).1 = Ok tt /\
  ~ raises_class "DuplicateDocument" (lsp_did_open demo_reopen demo_server).1.
Proof.
  split; [exists demo_document; vm_compute; reflexivity|].
  split; [reflexivity|]. intros [].
Qed.

Lemma lsp_did_open_overwrites_witness :
  (lsp_did_open demo_reopen demo_server).1 = Ok tt /\
  docs (lsp_did_open demo_reopen demo_server).2 !! "file:///w/a.py"
  = Some (Document.mk "file:///w/a.py" "x = 1" (Some 5%Z)) /\
  forall u, u ≠ "file:///w/a.py" ->
    docs (lsp_did_open demo_reopen demo_server).2 !! u = docs demo_server !! u.
Proof. exact (lsp_did_open_overwrites demo_reopen demo_server). Defined.

(** ** The position translator: round trip *)

Module PositionTranslatorFacts.
Import PositionTranslator.

Lemma utf16_units_pos c : 1 <= utf16_units c.
Proof. unfold utf16_units. destruct (c <? 65536)%Z; lia. Qed.

Lemma walk_lines_0 rest offset : walk_lines rest 0 offset = Ok (offset, rest).
Proof. by destruct rest. Qed.

Lemma walk_units_0 rest offset : walk_units rest 0 offset = Ok offset.
Proof. by destruct rest. Qed.

Lemma walk_units_cons c rest character offset :
  c ≠ NEWLINE -> utf16_units c <= character ->
  walk_units (c :: rest) character offset
  = walk_units rest (character - utf16_units c) (S offset).
Proof.
  intros Hc Hle. pose proof (utf16_units_pos c).
  destruct character as [|character]; [lia|].
  cbn [walk_units].
  destruct (Z.eqb_spec c NEWLINE); [done|].
  destruct (Nat.leb_spec (utf16_units c) (S character)); [reflexivity|lia].
Qed.

(** What [fromOffset] sees of the walk over line boundaries: after the
    characters the walk skipped, it stands at the target line, column 0. *)
Lemma walk_lines_fromOffset rest : forall line offset offset' rest',
  walk_lines rest line offset = Ok (offset', rest') ->
  exists d,
    offset' = offset + d /\
    forall n l0 c0,
      fromOffset_walk rest (d + n) l0 c0
      = fromOffset_walk rest' n (l0 + line)
          (match line with 0 => c0 | S _ => 0 end).
Proof.
  induction rest as [|c rest IH]; intros line offset offset' rest' Hwalk.
  - destruct line; [|discriminate]. injection Hwalk as <- <-.
    exists 0. split; [lia|]. intros n l0 c0. by rewrite Nat.add_0_r.
  - destruct line as [|line].
    + injection Hwalk as <- <-.
      exists 0. split; [lia|]. intros n l0 c0. by rewrite Nat.add_0_r.
    + cbn [walk_lines] in Hwalk.
      destruct (c =? NEWLINE)%Z eqn:Hnl;
        apply IH in Hwalk as (d & -> & Hfrom);
        exists (S d); (split; [lia|]); intros n l0 c0;
        cbn [Nat.add fromOffset_walk]; rewrite Hnl, Hfrom.
      * replace (S l0 + line) with (l0 + S line) by lia. by destruct line.
      * reflexivity.
Qed.

(** What [fromOffset] sees of the walk over code units: the same number
    of units, counted by the same routine. *)
Lemma walk_units_fromOffset rest : forall character offset offset',
  walk_units rest character offset = Ok offset' ->
  exists d,
    offset' = offset + d /\
    forall l0 c0,
      fromOffset_walk rest d l0 c0 = Ok (Position.mk l0 (c0 + character)).
Proof.
  induction rest as [|c rest IH]; intros character offset offset' Hwalk.
  - destruct character; [|discriminate]. injection Hwalk as <-.
    exists 0. split; [lia|]. intros l0 c0. cbn. by rewrite Nat.add_0_r.
  - destruct character as [|character].
    + injection Hwalk as <-.
      exists 0. split; [lia|]. intros l0 c0. cbn. by rewrite Nat.add_0_r.
    + cbn [walk_units] in Hwalk.
      destruct (c =? NEWLINE)%Z eqn:Hnl; [discriminate|].
      destruct (Nat.leb_spec (utf16_units c) (S character)) as [Hle|];
        [|discriminate].
      apply IH in Hwalk as (d & -> & Hfrom).
      exists (S d). split; [lia|]. intros l0 c0.
      cbn [fromOffset_walk]. rewrite Hnl, Hfrom. do 2 f_equal. lia.
Qed.

(** Every offset [toOffset] produces is taken back to the position. *)
Lemma fromOffset_toOffset text p offset :
  toOffset text p = Ok offset -> fromOffset text offset = Ok p.
Proof.
  unfold toOffset, fromOffset. destruct p as [line character]. cbn.
  destruct (walk_lines text line 0) as [[start rest]|e] eqn:Hlines;
    [|discriminate].
  intros Hunits.
  apply walk_lines_fromOffset in Hlines as (d1 & -> & Hfrom1).
  apply walk_units_fromOffset in Hunits as (d2 & -> & Hfrom2).
  cbn [Nat.add]. rewrite Hfrom1, Hfrom2. by destruct line.
Qed.

Lemma split_lines_cons c text :
  split_lines (c :: text)
  = if (c =? NEWLINE)%Z then [] :: split_lines text
    else match split_lines text with
         | ln :: lns => (c :: ln) :: lns
         | [] => [[c]]
         end.
Proof. reflexivity. Qed.

Lemma split_lines_nonempty text : split_lines text ≠ [].
Proof.
  destruct text as [|c text]; [done|]. rewrite split_lines_cons.
  destruct (c =? NEWLINE)%Z; [done|]. by destruct (split_lines text).
Qed.

(** The walk over line boundaries reaches every line of the text, and
    what it returns starts with that line. *)
Lemma walk_lines_split rest : forall line offset ln,
  split_lines rest !! line = Some ln ->
  exists offset' tail,
    walk_lines rest line offset = Ok (offset', ln ++ tail) /\
    Forall (fun c => c ≠ NEWLINE) ln.
Proof.
  induction rest as [|c rest IH]; intros line offset ln Hln.
  - destruct line as [|line]; [|by destruct line].
    injection Hln as <-. exists offset, []. by split.
  - rewrite split_lines_cons in Hln.
    destruct (Z.eqb_spec c NEWLINE) as [Hc|Hc].
    + destruct line as [|line].
      * injection Hln as <-. exists offset, (c :: rest). by split.
      * cbn [lookup list_lookup] in Hln.
        destruct (IH line (S offset) ln Hln) as (offset' & tail & Hwalk & Hall).
        exists offset', tail. split; [|done].
        cbn [walk_lines]. destruct (Z.eqb_spec c NEWLINE); done.
    + destruct (split_lines rest) as [|ln0 lns] eqn:Hsplit;
        [by apply split_lines_nonempty in Hsplit|].
      destruct line as [|line].
      * injection Hln as <-.
        destruct (IH 0 offset ln0 eq_refl) as (offset' & tail & Hwalk & Hall).
        rewrite walk_lines_0 in Hwalk. injection Hwalk as <- ->.
        exists offset, tail. split; [reflexivity|]. by constructor.
      * cbn [lookup list_lookup] in Hln.
        destruct (IH (S line) (S offset) ln Hln)
          as (offset' & tail & Hwalk & Hall).
        exists offset', tail. split; [|done].
        cbn [walk_lines]. destruct (Z.eqb_spec c NEWLINE); done.
Qed.

(** The walk over code units accepts the UTF-16 length of every prefix
    of the line. *)
Lemma walk_units_prefix ln : forall tail k offset,
  Forall (fun c => c ≠ NEWLINE) ln -> k <= length ln ->
  walk_units (ln ++ tail) (units (take k ln)) offset = Ok (offset + k).
Proof.
  induction ln as [|c ln IH]; intros tail k offset Hall Hk.
  - cbn in Hk. replace k with 0 by lia. cbn.
    rewrite walk_units_0. f_equal. lia.
  - destruct k as [|k].
    + cbn [take units map sum_list]. rewrite walk_units_0. f_equal. lia.
    + apply Forall_cons in Hall as [Hc Hall]. cbn in Hk.
      change (units (take (S k) (c :: ln)))
        with (utf16_units c + units (take k ln)).
      cbn [app]. rewrite walk_units_cons by (done || lia).
      replace (utf16_units c + units (take k ln) - utf16_units c)
        with (units (take k ln)) by lia.
      rewrite IH by (done || lia). f_equal. lia.
Qed.

(** C5: for every text and every valid position of it, with characters
    counted in UTF-16 code units, [toOffset] yields an offset and
    [fromOffset] takes that offset back to the position. *)
Theorem fromOffset_toOffset_round_trip text p :
  valid_position text p ->
  exists offset,
    toOffset text p = Ok offset /\ fromOffset text offset = Ok p.
Proof.
  intros (ln & k & Hline & Hk & Hunits).
  assert (Hto : exists offset, toOffset text p = Ok offset).
  { unfold toOffset.
    destruct (walk_lines_split text _ 0 ln Hline)
      as (start & tail & -> & Hall).
    rewrite <- Hunits. rewrite walk_units_prefix by done. eauto. }
  destruct Hto as [offset Hto]. exists offset.
  split; [done|]. by apply fromOffset_toOffset.
Qed.

(** The position just after the astral character of [astral_text]:
    character 7 in UTF-16 units, offset 6 in scalar values. *)
Lemma fromOffset_toOffset_round_trip_witness :
  exists offset,
    toOffset astral_text (Position.mk 0 7) = Ok offset /\
    fromOffset astral_text offset = Ok (Position.mk 0 7).
Proof.
  apply (fromOffset_toOffset_round_trip astral_text (Position.mk 0 7)).
  exists [120; 32; 61; 32; 34; 119987; 34]%Z, 6.
  split; [reflexivity|]. split; [cbn; lia|reflexivity].
Defined.

Example toOffset_after_astral :
  toOffset astral_text (Position.mk 0 7) = Ok 6.
Proof. reflexivity. Qed.

Example toOffset_second_line :
  toOffset astral_text (Position.mk 1 4) = Ok 12
  /\ fromOffset astral_text 12 = Ok (Position.mk 1 4).
Proof. split; reflexivity. Qed.

Example toOffset_past_end_of_line :
  toOffset astral_text (Position.mk 1 6) = Raise PositionOutOfRange.
Proof. reflexivity. Qed.
End PositionTranslatorFacts.

(** * Further properties of the handlers *)

(** ** Rename and find-references *)

Section RenameReferences.
Context `{ServerUtils}.

(** X1: rename is find-references followed by the grouping: it leaves the
    server where find-references leaves it, raises what find-references
    raises, answers [None] exactly when find-references answers the empty
    list, and otherwise groups the very locations find-references
    returns. *)
Theorem lsp_rename_from_references params server :
  lsp_rename params server
  = match lsp_references (rename_position params) server with
    | (Ok locations, server') =>
        (Ok match locations with
            | [] => None
            | _ :: _ =>
                Some (WorkspaceEdit.mk
                        (group_by_uri (RenameParams.newName params) locations))
            end,
         server')
    | (Raise e, server') => (Raise e, server')
    end.
Proof.
  unfold lsp_rename, lsp_references, mbind, handler_bind, lift_result, mret,
    handler_ret.
  destruct (get_jedi_script (rename_position params) server)
    as [[script|e] server']; [|reflexivity].
  destruct (Script.usages script) as [definitions|e]; [|reflexivity].
  destruct (locations_from_definitions definitions) as [|l ls] eqn:Hlocations;
    [reflexivity|].
  cbn [truthy negb]. by rewrite rename_loop_group.
Qed.

Lemma flat_map_tabulate {A B} (f : string -> A) (g : string * A -> list B) ks :
  flat_map g (map (fun k => (k, f k)) ks) = flat_map (fun k => g (k, f k)) ks.
Proof. induction ks as [|k ks IH]; [reflexivity|]. cbn. by rewrite IH. Qed.

Lemma edits_of_filter_other newName u k (locations : list Location.t) :
  u ≠ k ->
  edits_of newName u (filter (fun l => ¬ Location.uri l = k) locations)
  = edits_of newName u locations.
Proof.
  intros Hne. unfold edits_of. f_equal.
  rewrite list_filter_filter. apply list_filter_iff.
  intros l. split; [tauto|]. intros Hl. split; [done|]. congruence.
Qed.

(** Taken key by key, the edits of the grouping are the locations. *)
Lemma edit_locations_tabulate newName ks : forall locations,
  NoDup ks ->
  (forall l, l ∈ locations -> Location.uri l ∈ ks) ->
  flat_map
    (fun u => map (fun e => (u, TextEdit.range e)) (edits_of newName u locations))
    ks
  ≡ₚ map location_pair locations.
Proof.
  induction ks as [|k ks IH]; intros locations Hnodup Hcover.
  - destruct locations as [|l ls]; [reflexivity|].
    specialize (Hcover l (list_elem_of_here _ _)). by apply elem_of_nil in Hcover.
  - apply NoDup_cons in Hnodup as [Hk Hnodup]. cbn [flat_map].
    transitivity
      (map location_pair
         (filter (fun l => Location.uri l = k) locations
          ++ filter (fun l => ¬ Location.uri l = k) locations));
      [|apply Permutation_map, filter_app_complement].
    rewrite map_app. apply Permutation_app.
    + unfold edits_of. rewrite map_map.
      eq_perm. apply map_ext_in. intros l Hl.
      rewrite <- list_elem_of_In, list_elem_of_filter in Hl.
      destruct Hl as [<- _]. reflexivity.
    + rewrite <- (IH (filter (fun l => ¬ Location.uri l = k) locations));
        [|done|].
      * eq_perm. clear IH Hcover Hnodup.
        induction ks as [|u ks IHks]; [reflexivity|].
        apply not_elem_of_cons in Hk as [Hne Hk]. cbn [flat_map].
        rewrite IHks by done. f_equal.
        by rewrite edits_of_filter_other.
      * intros l Hl. apply list_elem_of_filter in Hl as [Hne Hl].
        specialize (Hcover l Hl). apply elem_of_cons in Hcover as [?|?]; done.
Qed.

Lemma edits_of_nonempty newName u locations :
  u ∈ map Location.uri locations -> edits_of newName u locations ≠ [].
Proof.
  intros Hu. apply list_elem_of_fmap in Hu as (l & -> & Hl).
  unfold edits_of. intros Hnil. apply map_eq_nil in Hnil.
  by apply (filter_nil_not_elem_of _ _ l) in Hnil.
Qed.

(** X2: a workspace edit returned by rename holds exactly one edit per
    location found, none dropped and none repeated: its (uri, range) pairs
    are a rearrangement of the locations'.  No key has an empty edit
    list, and every edit inserts the new name. *)
Theorem lsp_rename_covers_locations params server script server' definitions :
  get_jedi_script (rename_position params) server = (Ok script, server') ->
  Script.usages script = Ok definitions ->
  locations_from_definitions definitions ≠ [] ->
  exists changes,
    (lsp_rename params server).1 = Ok (Some (WorkspaceEdit.mk changes)) /\
    edit_locations changes
    ≡ₚ map location_pair (locations_from_definitions definitions) /\
    Forall
      (fun entry =>
         entry.2 ≠ [] /\
         Forall (fun e => TextEdit.new_text e = RenameParams.newName params)
           entry.2)
      changes.
Proof.
  intros Hscript Husages Hsome.
  set (locations := locations_from_definitions definitions) in *.
  set (newName := RenameParams.newName params).
  exists (group_by_uri newName locations). split; [|split].
  - unfold lsp_rename.
    rewrite (run_query Script.usages _ _ _ _ _ Hscript), Husages.
    fold locations newName.
    assert (Htruthy : truthy locations = true) by (by destruct locations).
    rewrite Htruthy. cbn [negb]. by rewrite rename_loop_group.
  - unfold edit_locations, group_by_uri. rewrite flat_map_tabulate. cbn [fst snd].
    apply edit_locations_tabulate; [apply NoDup_first_seen|].
    intros l Hl. apply elem_of_first_seen. by apply list_elem_of_fmap_2.
  - unfold group_by_uri. apply Forall_forall. intros entry Hentry.
    apply list_elem_of_fmap in Hentry as (u & -> & Hu). cbn [snd]. split.
    + apply edits_of_nonempty. by apply elem_of_first_seen.
    + unfold edits_of. apply Forall_forall. intros e He.
      apply list_elem_of_fmap in He as (l & -> & _). reflexivity.
Qed.
End RenameReferences.

(** ** Failures of the engine *)

Section EngineFailures.
Context `{ServerUtils} `{TypeMap}.

(** When the engine helper raises, a handler that asks one question raises
    the same exception and leaves the server as the helper left it. *)
Lemma run_query_helper_raises {A B} (q : Script.t -> result A)
    (k : A -> handler B) params server e server' :
  get_jedi_script params server = (Raise e, server') ->
  (script ← get_jedi_script params; x ← lift_result (q script); k x) server
  = (Raise e, server').
Proof.
  intros Hraise. unfold mbind, handler_bind. by rewrite Hraise.
Qed.

(** X3: no request handler catches a failure of the engine helper: whatever
    [get_jedi_script] raises, the handler raises unchanged, and it returns
    no empty or placeholder answer in its place. *)
Theorem handlers_propagate_helper_failure e server server' :
  (forall params,
     get_jedi_script (completion_position params) server = (Raise e, server') ->
     lsp_completion params server = (Raise e, server')) /\
  (forall params,
     get_jedi_script params server = (Raise e, server') ->
     lsp_definition params server = (Raise e, server') /\
     lsp_hover params server = (Raise e, server') /\
     lsp_references params server = (Raise e, server')) /\
  (forall params,
     get_jedi_script (rename_position params) server = (Raise e, server') ->
     lsp_rename params server = (Raise e, server')).
Proof.
  repeat split; intros;
    unfold lsp_completion, lsp_definition, lsp_hover, lsp_references,
      lsp_rename;
    by apply run_query_helper_raises.
Qed.

(** X4: nor does a handler catch a failure of the script's query: what
    [completions], [goto_assignments], [goto_definitions] or [usages]
    raises is raised by the handler that called it. *)
Theorem handlers_propagate_query_failure e server script server' :
  (forall params,
     get_jedi_script (completion_position params) server = (Ok script, server') ->
     Script.completions script = Raise e ->
     lsp_completion params server = (Raise e, server')) /\
  (forall params,
     get_jedi_script params server = (Ok script, server') ->
     (Script.goto_assignments script true true = Raise e ->
      lsp_definition params server = (Raise e, server')) /\
     (Script.goto_definitions script = Raise e ->
      lsp_hover params server = (Raise e, server')) /\
     (Script.usages script = Raise e ->
      lsp_references params server = (Raise e, server'))) /\
  (forall params,
     get_jedi_script (rename_position params) server = (Ok script, server') ->
     Script.usages script = Raise e ->
     lsp_rename params server = (Raise e, server')).
Proof.
  split; [|split].
  - intros params Hscript Hquery. unfold lsp_completion.
    by rewrite (run_query Script.completions _ _ _ _ _ Hscript), Hquery.
  - intros params Hscript. repeat split; intros Hquery.
    + unfold lsp_definition.
      by rewrite (run_query (fun s => Script.goto_assignments s true true)
                    _ _ _ _ _ Hscript), Hquery.
    + unfold lsp_hover.
      by rewrite (run_query Script.goto_definitions _ _ _ _ _ Hscript), Hquery.
    + unfold lsp_references.
      by rewrite (run_query Script.usages _ _ _ _ _ Hscript), Hquery.
  - intros params Hscript Hquery. unfold lsp_rename.
    by rewrite (run_query Script.usages _ _ _ _ _ Hscript), Hquery.
Qed.
End EngineFailures.

(** ** More on the document notifications *)

Section NotificationFacts.
Context `{DocumentSync}.

(** The guard of [lsp_did_change] changes nothing: the handler is its
    loop. *)
Lemma lsp_did_change_loop params :
  lsp_did_change params
  = for_each (DidChangeTextDocumentParams.contentChanges params)
      (fun change =>
         on_workspace
           (Workspace.update_document
              (DidChangeTextDocumentParams.textDocument params) change)).
Proof.
  unfold lsp_did_change.
  by destruct (DidChangeTextDocumentParams.contentChanges params).
Qed.

Lemma for_each_app {A} (l1 l2 : list A) (body : A -> handler unit) server :
  for_each (l1 ++ l2) body server
  = (for_each l1 body ≫= fun _ => for_each l2 body) server.
Proof.
  revert server. induction l1 as [|x l1 IH]; intros server; [reflexivity|].
  cbn [app for_each]. unfold mbind, handler_bind in *.
  destruct (body x server) as [[[]|e] server1]; [|reflexivity].
  apply IH.
Qed.

(** X5: one notification that carries the entries [l1] followed by [l2] does
    what two notifications for the same document do, the first with [l1]
    and the second with [l2]: same outcome, same server.  So a
    notification of n entries is n notifications of one entry. *)
Theorem lsp_did_change_app text_doc l1 l2 server :
  lsp_did_change (DidChangeTextDocumentParams.mk text_doc (l1 ++ l2)) server
  = (lsp_did_change (DidChangeTextDocumentParams.mk text_doc l1) ≫= fun _ =>
     lsp_did_change (DidChangeTextDocumentParams.mk text_doc l2)) server.
Proof.
  rewrite !lsp_did_change_loop.
  cbn [DidChangeTextDocumentParams.contentChanges
         DidChangeTextDocumentParams.textDocument].
  apply for_each_app.
Qed.

Lemma on_workspace_untracked text_doc change server :
  docs server !! VersionedTextDocumentIdentifier.uri text_doc = None ->
  on_workspace (Workspace.update_document text_doc change) server
  = (Raise (KeyError (VersionedTextDocumentIdentifier.uri text_doc)), server).
Proof.
  intros Hnone. unfold on_workspace, Workspace.update_document.
  unfold docs in Hnone. rewrite Hnone. by destruct server.
Qed.

Lemma lsp_did_change_untracked params server :
  let text_doc := DidChangeTextDocumentParams.textDocument params in
  docs server !! VersionedTextDocumentIdentifier.uri text_doc = None ->
  DidChangeTextDocumentParams.contentChanges params ≠ [] ->
  lsp_did_change params server
  = (Raise (KeyError (VersionedTextDocumentIdentifier.uri text_doc)), server).
Proof.
  intros text_doc Hnone Hsome. rewrite lsp_did_change_loop.
  destruct (DidChangeTextDocumentParams.contentChanges params)
    as [|change changes]; [done|].
  cbn [for_each]. unfold mbind, handler_bind.
  by rewrite (on_workspace_untracked _ _ _ Hnone).
Qed.

(** X6: a did-change fails in one case only: a non-empty change list for a uri
    that is not tracked.  It then raises [KeyError] on that uri at the
    first entry, and the server is left exactly as it was; with a tracked
    uri or an empty list it returns normally. *)
Theorem lsp_did_change_fails_only_untracked params server :
  let uri :=
    VersionedTextDocumentIdentifier.uri
      (DidChangeTextDocumentParams.textDocument params) in
  let changes := DidChangeTextDocumentParams.contentChanges params in
  (docs server !! uri = None -> changes ≠ [] ->
   lsp_did_change params server = (Raise (KeyError uri), server)) /\
  (is_Some (docs server !! uri) \/ changes = [] ->
   (lsp_did_change params server).1 = Ok tt).
Proof.
  intros uri changes. split.
  - apply lsp_did_change_untracked.
  - intros [[doc Hdoc]|Hempty].
    + by rewrite (lsp_did_change_tracked params server doc Hdoc).
    + rewrite lsp_did_change_loop. fold changes. by rewrite Hempty.
Qed.

(** X7: whatever its outcome, a did-change touches one document at most: the
    set of tracked uris, every document stored under another uri and both
    sync kinds are as before. *)
Theorem lsp_did_change_frame params server :
  let uri :=
    VersionedTextDocumentIdentifier.uri
      (DidChangeTextDocumentParams.textDocument params) in
  let server' := (lsp_did_change params server).2 in
  dom (docs server') = dom (docs server) /\
  (forall u, u ≠ uri -> docs server' !! u = docs server !! u) /\
  LanguageServer.sync_kind server' = LanguageServer.sync_kind server /\
  Workspace._sync_kind (LanguageServer.workspace server')
  = Workspace._sync_kind (LanguageServer.workspace server).
Proof.
  intros uri server'. subst server'.
  destruct (docs server !! uri) as [doc|] eqn:Hdoc.
  - rewrite (lsp_did_change_tracked params server doc Hdoc). cbn [snd].
    rewrite docs_set_docs. repeat split.
    + apply dom_insert_lookup_L. by exists doc.
    + intros u Hu. by rewrite lookup_insert_ne.
  - destruct (DidChangeTextDocumentParams.contentChanges params)
      as [|change changes] eqn:Hchanges.
    + rewrite lsp_did_change_loop, Hchanges. by repeat split.
    + rewrite (lsp_did_change_untracked params server Hdoc)
        by (by rewrite Hchanges).
      by repeat split.
Qed.

Lemma lsp_did_open_run params server :
  lsp_did_open params server
  = (Ok tt,
     set_docs server
       (<[TextDocumentItem.uri (DidOpenTextDocumentParams.textDocument params) :=
            Document.mk
              (TextDocumentItem.uri (DidOpenTextDocumentParams.textDocument params))
              (TextDocumentItem.text (DidOpenTextDocumentParams.textDocument params))
              (TextDocumentItem.version
                 (DidOpenTextDocumentParams.textDocument params))]>
          (docs server))).
Proof. reflexivity. Qed.

(** X8: a did-change that follows the did-open of its document never fails,
    whatever the server tracked before: the document then holds the
    opened text with the entries applied in order. *)
Theorem lsp_did_change_after_did_open open_params change_params server :
  let item := DidOpenTextDocumentParams.textDocument open_params in
  let text_doc := DidChangeTextDocumentParams.textDocument change_params in
  let opened := (lsp_did_open open_params server).2 in
  TextDocumentItem.uri item = VersionedTextDocumentIdentifier.uri text_doc ->
  (lsp_did_change change_params opened).1 = Ok tt /\
  docs (lsp_did_change change_params opened).2 !! TextDocumentItem.uri item
  = Some
      (changed_document
         (Workspace._sync_kind (LanguageServer.workspace server))
         (VersionedTextDocumentIdentifier.version text_doc)
         (DidChangeTextDocumentParams.contentChanges change_params)
         (Document.mk (TextDocumentItem.uri item) (TextDocumentItem.text item)
            (TextDocumentItem.version item))).
Proof.
  intros item text_doc opened Huri. subst opened.
  rewrite lsp_did_open_run. cbn [snd]. fold item.
  rewrite (lsp_did_change_tracked change_params _
             (Document.mk (TextDocumentItem.uri item)
                (TextDocumentItem.text item) (TextDocumentItem.version item)))
    by (fold text_doc; rewrite <- Huri, docs_set_docs; apply lookup_insert_eq).
  split; [reflexivity|]. cbn [snd]. fold text_doc. rewrite <- Huri.
  rewrite docs_set_docs. apply lookup_insert_eq.
Qed.

(** X9: of two did-opens of one uri the later wins: the server is as if only
    the later one had been received. *)
Theorem lsp_did_open_last_wins first_params last_params server :
  TextDocumentItem.uri (DidOpenTextDocumentParams.textDocument first_params)
  = TextDocumentItem.uri (DidOpenTextDocumentParams.textDocument last_params) ->
  lsp_did_open last_params (lsp_did_open first_params server).2
  = lsp_did_open last_params server.
Proof.
  intros Huri. rewrite !lsp_did_open_run. cbn [snd].
  rewrite set_docs_set_docs, docs_set_docs, Huri.
  by rewrite insert_insert_eq.
Qed.

(** X10: did-opens of two different uris commute: either order leaves the same
    server. *)
Theorem lsp_did_open_commute params1 params2 server :
  TextDocumentItem.uri (DidOpenTextDocumentParams.textDocument params1)
  ≠ TextDocumentItem.uri (DidOpenTextDocumentParams.textDocument params2) ->
  (lsp_did_open params2 (lsp_did_open params1 server).2).2
  = (lsp_did_open params1 (lsp_did_open params2 server).2).2.
Proof.
  intros Hne. rewrite !lsp_did_open_run. cbn [snd].
  rewrite !set_docs_set_docs, !docs_set_docs.
  by rewrite insert_insert_ne.
Qed.

(** X11: every tracked document is stored under its own uri.  This holds of
    the server at start-up and is kept by both notifications: if each
    tracked document's [uri] field is the key it is stored under, the
    same holds after a did-open and after a did-change. *)
Theorem notifications_keep_docs_keyed_by_uri :
  docs_keyed_by_uri SERVER /\
  forall server,
    docs_keyed_by_uri server ->
    (forall params, docs_keyed_by_uri (lsp_did_open params server).2) /\
    (forall params, docs_keyed_by_uri (lsp_did_change params server).2).
Proof.
  split.
  { intros u d Hd.
    change (docs SERVER) with (∅ : gmap string Document.t) in Hd.
    by rewrite lookup_empty in Hd. }
  intros server Hkeyed. split; intros params u d.
  - rewrite lsp_did_open_run. cbn [snd]. rewrite docs_set_docs.
    intros [[<- <-]|[_ Hd]]%lookup_insert_Some; [reflexivity|].
    by apply Hkeyed.
  - set (uri := VersionedTextDocumentIdentifier.uri
                  (DidChangeTextDocumentParams.textDocument params)).
    destruct (docs server !! uri) as [doc|] eqn:Hdoc.
    + rewrite (lsp_did_change_tracked params server doc Hdoc). cbn [snd].
      rewrite docs_set_docs. fold uri.
      intros [[<- <-]|[_ Hd]]%lookup_insert_Some; [|by apply Hkeyed].
      cbn. by apply Hkeyed.
    + destruct (DidChangeTextDocumentParams.contentChanges params)
        as [|change changes] eqn:Hchanges.
      * rewrite lsp_did_change_loop, Hchanges. apply Hkeyed.
      * rewrite (lsp_did_change_untracked params server Hdoc)
          by (by rewrite Hchanges).
        apply Hkeyed.
Qed.
End NotificationFacts.

(** ** Closed examples of the further properties *)

Lemma lsp_rename_covers_locations_witness :
  exists changes,
    (@lsp_rename demo_utils demo_rename_params SERVER).1
    = Ok (Some (WorkspaceEdit.mk changes)) /\
    edit_locations changes
    ≡ₚ map location_pair (map demo_location demo_usages) /\
    Forall
      (fun entry =>
         entry.2 ≠ [] /\ Forall (fun e => TextEdit.new_text e = "g") entry.2)
      changes.
Proof.
  apply (@lsp_rename_covers_locations demo_utils demo_rename_params SERVER
           demo_script SERVER demo_usages);
    [reflexivity|reflexivity|discriminate].
Defined.

(** Every handler over an engine helper that cannot read the file. *)
Lemma handlers_propagate_helper_failure_witness :
  @lsp_completion failing_utils demo_type_map demo_completion_params demo_server
  = (Raise unreadable, demo_server) /\
  (@lsp_definition failing_utils demo_position demo_server
   = (Raise unreadable, demo_server) /\
   @lsp_hover failing_utils demo_position demo_server
   = (Raise unreadable, demo_server) /\
   @lsp_references failing_utils demo_position demo_server
   = (Raise unreadable, demo_server)) /\
  @lsp_rename failing_utils demo_rename_params demo_server
  = (Raise unreadable, demo_server).
Proof.
  pose proof (@handlers_propagate_helper_failure failing_utils demo_type_map
                unreadable demo_server demo_server) as (Hc & Hp & Hr).
  split; [apply Hc; reflexivity|]. split; [apply Hp; reflexivity|].
  apply Hr. reflexivity.
Defined.

(** Every handler over a script whose queries raise. *)
Lemma handlers_propagate_query_failure_witness :
  @lsp_completion broken_utils demo_type_map demo_completion_params demo_server
  = (Raise broken, demo_server) /\
  (@lsp_definition broken_utils demo_position demo_server
   = (Raise broken, demo_server) /\
   @lsp_hover broken_utils demo_position demo_server
   = (Raise broken, demo_server) /\
   @lsp_references broken_utils demo_position demo_server
   = (Raise broken, demo_server)) /\
  @lsp_rename broken_utils demo_rename_params demo_server
  = (Raise broken, demo_server).
Proof.
  pose proof (@handlers_propagate_query_failure broken_utils demo_type_map
                broken demo_server broken_script demo_server) as (Hc & Hp & Hr).
  split; [apply Hc; reflexivity|]. split.
  - destruct (Hp demo_position eq_refl) as (Hd & Hh & Hf).
    split; [apply Hd; reflexivity|]. split; [apply Hh|apply Hf]; reflexivity.
  - apply Hr; reflexivity.
Defined.

(** A did-change for the untracked [c.py] fails and changes nothing; the
    one for the tracked [a.py] succeeds. *)
Lemma lsp_did_change_fails_only_untracked_witness :
  @lsp_did_change full_replacement demo_untracked_change demo_server
  = (Raise (KeyError "file:///w/c.py"), demo_server) /\
  (@lsp_did_change full_replacement demo_did_change demo_server).1 = Ok tt.
Proof.
  split.
  - apply (@lsp_did_change_fails_only_untracked full_replacement
             demo_untracked_change demo_server);
      [vm_compute; reflexivity|discriminate].
  - apply (@lsp_did_change_fails_only_untracked full_replacement
             demo_did_change demo_server).
    left. exists demo_document. vm_compute. reflexivity.
Defined.

Lemma lsp_did_change_frame_witness :
  let server' :=
    (@lsp_did_change full_replacement demo_did_change demo_server).2 in
  dom (docs server') = dom (docs demo_server) /\
  (forall u, u ≠ "file:///w/a.py" -> docs server' !! u = docs demo_server !! u) /\
  LanguageServer.sync_kind server' = FULL /\
  Workspace._sync_kind (LanguageServer.workspace server') = FULL.
Proof.
  exact (@lsp_did_change_frame full_replacement demo_did_change demo_server).
Defined.

(** [a.py] opened on the fresh server, then changed. *)
Lemma lsp_did_change_after_did_open_witness :
  let opened := (lsp_did_open demo_reopen SERVER).2 in
  (@lsp_did_change full_replacement demo_did_change opened).1 = Ok tt /\
  docs (@lsp_did_change full_replacement demo_did_change opened).2
    !! "file:///w/a.py"
  = Some (Document.mk "file:///w/a.py" "def g(): pass" (Some 5%Z)).
Proof.
  apply (@lsp_did_change_after_did_open full_replacement demo_reopen
           demo_did_change SERVER).
  reflexivity.
Defined.

Lemma lsp_did_open_last_wins_witness :
  let again :=
    DidOpenTextDocumentParams.mk
      (TextDocumentItem.mk "file:///w/a.py" "python" (Some 6%Z) "y = 2") in
  lsp_did_open again (lsp_did_open demo_reopen demo_server).2
  = lsp_did_open again demo_server.
Proof.
  intros again.
  apply (lsp_did_open_last_wins demo_reopen again demo_server). reflexivity.
Defined.

Lemma lsp_did_open_commute_witness :
  (lsp_did_open demo_open_b (lsp_did_open demo_reopen demo_server).2).2
  = (lsp_did_open demo_reopen (lsp_did_open demo_open_b demo_server).2).2.
Proof.
  apply (lsp_did_open_commute demo_reopen demo_open_b demo_server).
  discriminate.
Defined.

Lemma notifications_keep_docs_keyed_by_uri_witness :
  docs_keyed_by_uri (lsp_did_open demo_open_b demo_server).2 /\
  docs_keyed_by_uri
    (@lsp_did_change full_replacement demo_did_change demo_server).2.
Proof.
  destruct (@notifications_keep_docs_keyed_by_uri full_replacement)
    as [_ Hkeep].
  destruct (Hkeep demo_server) as [Hopen Hchange].
  - intros u d Hd.
    change (docs demo_server)
      with ({[ "file:///w/a.py" := demo_document ]} : gmap string Document.t)
      in Hd.
    apply lookup_singleton_Some in Hd as [<- <-]. reflexivity.
  - split; [apply Hopen|apply Hchange].
Defined.
